(** * combine_csv: merging the yearly car-model CSV files into one table

    A shallow embedding of [database_creator/combine_csv.py].  The script
    is a straight-line batch job: it probes [<year>.csv] for every year
    of a fixed range, reads the files that exist into data frames, forces
    their [year] column, concatenates the frames and writes the result to
    the table [all_cars] of an SQLite file.

    The file system, the console and the SQLite file are an explicit
    [World]; the script runs in a small state-and-exception monad over
    it.  The pandas, os and sqlite3 calls the script makes are modelled
    in the sections "Data frames" and "The library calls"; a file of the
    folder is taken as what [pd.read_csv] makes of it. *)

From stdpp Require Import base option list list_numbers strings pretty gmap fin_maps.

Local Open Scope Z_scope.

(** ** Data frames *)

(** A cell of a table.  [CNaN] is the missing value pandas fills in (and
    SQLite stores as NULL).  Floating-point cells are left out. *)
Inductive Cell : Type :=
  | CInt (z : Z)
  | CText (s : string)
  | CNaN.

Global Instance Cell_eq_dec : EqDecision Cell.
Proof. solve_decision. Defined.

(** A row is the list of its cells, in column order. *)
Abbreviation Row := (list Cell).

(** A data frame: the column labels and the rows, each row aligned with
    the labels.  The row index is not modelled: the script resets it
    ([ignore_index=True]) and does not persist it ([index=False]). *)
Record DataFrame : Type := mkDataFrame {
  columns : list string;
  rows : list Row;
}.

Global Instance DataFrame_eq_dec : EqDecision DataFrame.
Proof. solve_decision. Defined.

(** Every frame pandas builds is rectangular. *)
Definition rectangular (df : DataFrame) : Prop :=
  Forall (λ r : Row, length r = length (columns df)) (rows df).

Global Instance rectangular_dec df : Decision (rectangular df).
Proof. unfold rectangular. apply _. Defined.

(** Position of the first column labelled [c]. *)
Fixpoint index_of (c : string) (cols : list string) : option nat :=
  match cols with
  | [] => None
  | c' :: cols' => if decide (c = c') then Some O else S <$> index_of c cols'
  end.

(** The cell of row [r] under the label [c]. *)
Definition row_get (cols : list string) (r : Row) (c : string) : option Cell :=
  i ← index_of c cols; r !! i.

(** [df[c] = v] with a scalar [v]: an existing column is overwritten in
    place on every row, a new column is added as the last one. *)
Definition setitem (df : DataFrame) (c : string) (v : Cell) : DataFrame :=
  match index_of c (columns df) with
  | Some i =>
      {| columns := columns df; rows := (λ r : Row, <[i := v]> r) <$> rows df |}
  | None =>
      {| columns := columns df ++ [c]; rows := (λ r : Row, r ++ [v]) <$> rows df |}
  end.

(** Column labels of [pd.concat] (outer join, no sorting): the labels of
    all frames, each kept at its first appearance. *)
Definition add_columns (acc cols : list string) : list string :=
  acc ++ list_difference cols acc.

Definition union_columns (dfs : list DataFrame) : list string :=
  foldl (λ acc df, add_columns acc (columns df)) [] dfs.

(** A row of a frame with labels [cols], realigned to the labels [cols'];
    a label the frame lacks gets the missing value. *)
Definition reindex (cols cols' : list string) (r : Row) : Row :=
  (λ c, default CNaN (row_get cols r c)) <$> cols'.

Definition realigned_rows (cols' : list string) (df : DataFrame) : list Row :=
  reindex (columns df) cols' <$> rows df.

(** The frame [pd.concat] builds from a non-empty list of frames: the
    rows of the frames one after the other, realigned to the union of
    the labels. *)
Definition concat_frames (dfs : list DataFrame) : DataFrame :=
  let cols := union_columns dfs in
  {| columns := cols; rows := dfs ≫= realigned_rows cols |}.

(** ** The relational store *)

Inductive SqlType : Type := INTEGER | TEXT.

(** A stored table: its column names and its rows.  Column type
    affinities are not stored. *)
Record Table : Type := mkTable {
  tcolumns : list string;
  trows : list Row;
}.

Global Instance Table_eq_dec : EqDecision Table.
Proof. solve_decision. Defined.

(** The statements the script executes through the cursor. *)
Inductive Stmt : Type :=
  | CreateTableIfNotExists (name : string) (cols : list (string * SqlType)).

(** The [if_exists] modes of [to_sql]. *)
Inductive IfExists : Type := IfFail | IfReplace | IfAppend.

(** ** The world of the script *)

(** What [pd.read_csv] finds in a file: a header row and data rows, or
    text it cannot parse. *)
Inductive FileContent : Type :=
  | Csv (df : DataFrame)
  | Malformed.

Inductive Event : Type :=
  | EExists (path : string)
  | EReadCsv (path : string)
  | EPrint (line : string)
  | EConnect (path : string)
  | EExecute (stmt : Stmt)
  | EToSql (name : string) (mode : IfExists)
  | ECommit
  | EClose.

Global Instance SqlType_eq_dec : EqDecision SqlType.
Proof. solve_decision. Defined.
Global Instance Stmt_eq_dec : EqDecision Stmt.
Proof. solve_decision. Defined.
Global Instance IfExists_eq_dec : EqDecision IfExists.
Proof. solve_decision. Defined.
Global Instance Event_eq_dec : EqDecision Event.
Proof. solve_decision. Defined.

(** [files]: the files of the CSV folder, by path.
    [dbs]: the database files, by path, as they are on disk.
    [conn]: the open connection, with the path it was opened on and its
    view of the database, uncommitted changes included.
    [trace]: everything the script did to the outside, oldest first. *)
Record World : Type := mkWorld {
  files : gmap string FileContent;
  dbs : gmap string (gmap string Table);
  conn : option (string * gmap string Table);
  trace : list Event;
}.

Definition log (e : Event) (w : World) : World :=
  {| files := files w; dbs := dbs w; conn := conn w; trace := trace w ++ [e] |}.



(** ** Exceptions and the script monad *)

Inductive Exn : Type :=
  | FileNotFoundError (msg : string)
  | ParserError (path : string)
  | ValueError (msg : string)
  | OperationalError (msg : string)
  | ProgrammingError (msg : string).

Global Instance Exn_eq_dec : EqDecision Exn.
Proof. solve_decision. Defined.

(** A computation either raises ([inl]) or returns ([inr]); the world it
    leaves behind is kept in both cases. *)
Definition Script (A : Type) : Type := World → (Exn + A) * World.

Global Instance Script_ret : MRet Script := λ A a w, (inr a, w).

Global Instance Script_bind : MBind Script := λ A B f m w,
  match m w with
  | (inr a, w') => f a w'
  | (inl e, w') => (inl e, w')
  end.

Definition raise {A} (e : Exn) : Script A := λ w, (inl e, w).

Definition emit (e : Event) : Script unit := λ w, (inr tt, log e w).

(** A [for] loop that updates an accumulator; an exception in the body
    leaves the loop. *)
Fixpoint foldM {A S} (body : S → A → Script S) (s : S) (xs : list A) : Script S :=
  match xs with
  | [] => mret s
  | x :: xs' => s' ← body s x; foldM body s' xs'
  end.

(** ** The library calls *)

(** [os.path.exists] *)
Definition os_path_exists (path : string) : Script bool := λ w,
  (inr (bool_decide (is_Some (files w !! path))), log (EExists path) w).

Fixpoint ends_with_slash (s : string) : bool :=
  match s with
  | EmptyString => false
  | String a EmptyString => bool_decide (String a EmptyString = "/")
  | String _ s' => ends_with_slash s'
  end.

(** [os.path.join] of two components (POSIX). *)
Definition os_path_join (a b : string) : string :=
  if String.prefix "/" b then b
  else if bool_decide (a = "") || ends_with_slash a then a +:+ b
  else a +:+ "/" +:+ b.

(** [print] *)
Definition print (line : string) : Script unit := emit (EPrint line).

(** [pd.read_csv] *)
Definition pd_read_csv (path : string) : Script DataFrame := λ w,
  let w' := log (EReadCsv path) w in
  match files w !! path with
  | Some (Csv df) => (inr df, w')
  | Some Malformed => (inl (ParserError path), w')
  | None => (inl (FileNotFoundError path), w')
  end.

(** [pd.concat(dfs, ignore_index=True)] *)
Definition pd_concat (dfs : list DataFrame) : Script DataFrame :=
  match dfs with
  | [] => raise (ValueError "No objects to concatenate")
  | _ => mret (concat_frames dfs)
  end.

(** [sqlite3.connect]: opens the database file, creating it when absent. *)
Definition sqlite3_connect (path : string) : Script unit := λ w,
  let db := default ∅ (dbs w !! path) in
  (inr tt,
   log (EConnect path)
     {| files := files w; dbs := <[path := db]> (dbs w);
        conn := Some (path, db); trace := trace w |}).

(** A statement or write on the open connection. *)
Definition on_connection (f : gmap string Table → Exn + gmap string Table) : Script unit := λ w,
  match conn w with
  | None => (inl (ProgrammingError "Cannot operate on a closed database."), w)
  | Some (path, db) =>
      match f db with
      | inl e => (inl e, w)
      | inr db' =>
          (inr tt, {| files := files w; dbs := dbs w;
                      conn := Some (path, db'); trace := trace w |})
      end
  end.

(** [cursor.execute] *)
Definition cursor_execute (stmt : Stmt) : Script unit :=
  emit (EExecute stmt);;
  on_connection (λ db,
    match stmt with
    | CreateTableIfNotExists name cols =>
        match db !! name with
        | Some _ => inr db
        | None => inr (<[name := {| tcolumns := cols.*1; trows := [] |}]> db)
        end
    end).

(** [df.to_sql(name, conn, if_exists=mode, index=False)] *)
Definition to_sql (df : DataFrame) (name : string) (mode : IfExists) : Script unit :=
  emit (EToSql name mode);;
  on_connection (λ db,
    let fresh := {| tcolumns := columns df; trows := rows df |} in
    match db !! name, mode with
    | None, _ => inr (<[name := fresh]> db)
    | Some _, IfReplace => inr (<[name := fresh]> db)
    | Some _, IfFail => inl (ValueError ("Table '" +:+ name +:+ "' already exists."))
    | Some t, IfAppend =>
        if decide (columns df ⊆ tcolumns t) then
          inr (<[name := {| tcolumns := tcolumns t;
                            trows := trows t ++ realigned_rows (tcolumns t) df |}]> db)
        else inl (OperationalError ("table " +:+ name +:+ " has no such column"))
    end).

(** [conn.commit]: the connection's view becomes the file on disk. *)
Definition conn_commit : Script unit := λ w,
  match conn w with
  | None => (inl (ProgrammingError "Cannot operate on a closed database."), w)
  | Some (path, db) =>
      (inr tt,
       log ECommit {| files := files w; dbs := <[path := db]> (dbs w);
                      conn := conn w; trace := trace w |})
  end.

(** [conn.close] *)
Definition conn_close : Script unit := λ w,
  (inr tt,
   log EClose {| files := files w; dbs := dbs w; conn := None; trace := trace w |}).

(** ** The script *)

Definition csv_folder : string := "./us_car_models_data_master".
Definition output_db : string := "./cars.db".

(** Python's [range(a, b)] *)
Definition range (a b : Z) : list Z := seqZ a (b - a).

(** [f'{year}.csv'] *)
Definition file_name (year : Z) : string := pretty year +:+ ".csv".

Definition file_path (year : Z) : string := os_path_join csv_folder (file_name year).

Definition skip_notice (year : Z) : string :=
  "File " +:+ pretty year +:+ ".csv not found, skipping.".

Definition completion_notice : string :=
  "All cars data merged and stored in " +:+ output_db +:+ " as 'all_cars'.".

Definition no_data_found : Exn :=
  FileNotFoundError "No CSV files found for the specified range.".

Definition declared_columns : list (string * SqlType) :=
  [("year", INTEGER); ("make", TEXT); ("model", TEXT); ("body_styles", TEXT)].

(** The body of the loop over the years; [all_cars_data] is the list the
    script appends to. *)
Definition scan_year (all_cars_data : list DataFrame) (year : Z) : Script (list DataFrame) :=
  found ← os_path_exists (file_path year);
  if (found : bool) then
    df ← pd_read_csv (file_path year);
    mret (all_cars_data ++ [setitem df "year" (CInt year)])
  else
    print (skip_notice year);;
    mret all_cars_data.

Definition scan_years : list Z := range 1992 2027.

Definition main : Script unit :=
  all_cars_data ← foldM scan_year [] scan_years;
  all_cars ← match all_cars_data with
             | [] => raise no_data_found
             | _ => pd_concat all_cars_data
             end;
  sqlite3_connect output_db;;
  cursor_execute (CreateTableIfNotExists "all_cars" declared_columns);;
  to_sql all_cars "all_cars" IfReplace;;
  conn_commit;;
  conn_close;;
  print completion_notice.

(** One run of the script as a fresh process: nothing printed yet, no
    connection open. *)
Definition run (fs : gmap string FileContent) (store : gmap string (gmap string Table))
    : (Exn + unit) * World :=
  main {| files := fs; dbs := store; conn := None; trace := [] |}.

(** The table [all_cars] of the output file, as it is on disk. *)
Definition all_cars_table (w : World) : option Table :=
  db ← dbs w !! output_db; db !! "all_cars".

(** ** The loop, as pure functions of the folder *)

(** The frame the loop body appends for a file that parsed to [df]. *)
Definition tagged (year : Z) (df : DataFrame) : DataFrame :=
  setitem df "year" (CInt year).

(** What the loop over [years] does to the outside. *)
Fixpoint scan_trace (fs : gmap string FileContent) (years : list Z) : list Event :=
  match years with
  | [] => []
  | y :: ys =>
      match fs !! file_path y with
      | None => EExists (file_path y) :: EPrint (skip_notice y) :: scan_trace fs ys
      | Some (Csv _) => EExists (file_path y) :: EReadCsv (file_path y) :: scan_trace fs ys
      | Some Malformed => [EExists (file_path y); EReadCsv (file_path y)]
      end
  end.

(** How the loop over [years] ends, started on the list [acc]. *)
Fixpoint scan_outcome (fs : gmap string FileContent) (acc : list DataFrame)
    (years : list Z) : Exn + list DataFrame :=
  match years with
  | [] => inr acc
  | y :: ys =>
      match fs !! file_path y with
      | None => scan_outcome fs acc ys
      | Some (Csv df) => scan_outcome fs (acc ++ [tagged y df]) ys
      | Some Malformed => inl (ParserError (file_path y))
      end
  end.

(** The rows file [year] contributes to a table with columns [cols]. *)
Definition contribution (fs : gmap string FileContent) (cols : list string)
    (year : Z) : list Row :=
  match fs !! file_path year with
  | Some (Csv df) => realigned_rows cols (tagged year df)
  | _ => []
  end.

(** The frames of the files of [years] that exist and parse. *)
Definition collected (fs : gmap string FileContent) (years : list Z) : list DataFrame :=
  omap (λ y, match fs !! file_path y with
             | Some (Csv df) => Some (tagged y df)
             | _ => None
             end) years.

(** The table [to_sql] writes for the frames the loop collected. *)
Definition table_of (dfs : list DataFrame) : Table :=
  {| tcolumns := columns (concat_frames dfs); trows := rows (concat_frames dfs) |}.

(** The store calls of a run that got that far. *)
Definition store_trace : list Event :=
  [EConnect output_db;
   EExecute (CreateTableIfNotExists "all_cars" declared_columns);
   EToSql "all_cars" IfReplace; ECommit; EClose; EPrint completion_notice].

Definition is_store_event (e : Event) : bool :=
  match e with
  | EConnect _ | EExecute _ | EToSql _ _ | ECommit | EClose => true
  | _ => false
  end.

(** The years of the scan. *)
Definition in_range (y : Z) : Prop := 1992 ≤ y ≤ 2026.

(** No file of [years] is unparseable. *)
Definition all_parse (fs : gmap string FileContent) (years : list Z) : Prop :=
  Forall (λ y, fs !! file_path y ≠ Some Malformed) years.

Global Instance FileContent_eq_dec : EqDecision FileContent.
Proof. solve_decision. Defined.

Global Instance all_parse_dec fs years : Decision (all_parse fs years).
Proof. unfold all_parse. apply _. Defined.

(** ** Observations on worlds and traces *)

(** The store after the table [t] was written to [all_cars]. *)
Definition written (store : gmap string (gmap string Table)) (t : Table)
    : gmap string (gmap string Table) :=
  <[output_db := <["all_cars" := t]> (default ∅ (store !! output_db))]> store.

(** The paths probed with [os.path.exists], and those read. *)
Definition probed (tr : list Event) : list string :=
  omap (λ e, match e with EExists p => Some p | _ => None end) tr.

Definition read (tr : list Event) : list string :=
  omap (λ e, match e with EReadCsv p => Some p | _ => None end) tr.

(** The file of year [y] does not exist. *)
Definition missing (fs : gmap string FileContent) (y : Z) : Prop :=
  fs !! file_path y = None.

Global Instance missing_dec fs y : Decision (missing fs y).
Proof. unfold missing. apply _. Defined.

(** What is at a path is not a frame with a ragged row. *)
Definition content_rectangular (c : option FileContent) : Prop :=
  match c with
  | Some (Csv df) => rectangular df
  | _ => True
  end.

Global Instance content_rectangular_dec c : Decision (content_rectangular c).
Proof. destruct c as [[df|]|]; simpl; apply _. Defined.

(** The frames read from the files of the range are rectangular. *)
Definition frames_rectangular (fs : gmap string FileContent) : Prop :=
  Forall (λ y, content_rectangular (fs !! file_path y)) scan_years.

Global Instance frames_rectangular_dec fs : Decision (frames_rectangular fs).
Proof. unfold frames_rectangular. apply _. Defined.

(** ** Example folders *)

Definition corolla : Row := [CText "Toyota"; CText "Corolla"; CText "Sedan"].

(** Only [2020.csv], with one row and no [year] column. *)
Definition folder_2020 : gmap string FileContent :=
  {[ file_path 2020 :=
       Csv {| columns := ["make"; "model"; "body_styles"]; rows := [corolla] |} ]}.

(** Only [2020.csv], whose own [year] column says 1999. *)
Definition folder_2020_stale_year : gmap string FileContent :=
  {[ file_path 2020 :=
       Csv {| columns := ["year"; "make"; "model"; "body_styles"];
              rows := [CInt 1999 :: corolla] |} ]}.

(** [1992.csv] and [2026.csv], one row each. *)
Definition folder_first_last : gmap string FileContent :=
  {[ file_path 1992 :=
       Csv {| columns := ["make"; "model"; "body_styles"];
              rows := [[CText "Ford"; CText "Taurus"; CText "Sedan"]] |};
     file_path 2026 :=
       Csv {| columns := ["make"; "model"; "body_styles"]; rows := [corolla] |} ]}.

(** A store that already holds an [all_cars] table. *)
Definition store_with_old_table : gmap string (gmap string Table) :=
  {[ output_db :=
       {[ "all_cars" := {| tcolumns := ["year"; "make"; "model"; "body_styles"];
                           trows := [[CInt 1980; CText "Old"; CText "Car"; CText "Coupe"]] |} ]} ]}.

(** Only [2020.csv], with a column the declaration lacks and without two
    it has. *)
Definition folder_other_columns : gmap string FileContent :=
  {[ file_path 2020 :=
       Csv {| columns := ["make"; "doors"]; rows := [[CText "Toyota"; CInt 4]] |} ]}.

(** [2020.csv] parses, [2021.csv] does not. *)
Definition folder_with_malformed : gmap string FileContent :=
  {[ file_path 2020 :=
       Csv {| columns := ["make"; "model"; "body_styles"]; rows := [corolla] |};
     file_path 2021 := Malformed ]}.


(** ** Further observations *)

(** The number of data rows of the file of year [y]; none when the file
    is absent or unparseable. *)
Definition nrows (fs : gmap string FileContent) (y : Z) : nat :=
  match fs !! file_path y with
  | Some (Csv df) => length (rows df)
  | _ => O
  end.


(** What is at a path is not a frame with a repeated label. *)
Definition content_distinct (c : option FileContent) : Prop :=
  match c with
  | Some (Csv df) => NoDup (columns df)
  | _ => True
  end.

Global Instance content_distinct_dec c : Decision (content_distinct c).
Proof. destruct c as [[df|]|]; simpl; apply _. Defined.

(** The frames read from the files of the range have distinct labels
    ([pd.read_csv] renames repeated ones). *)
Definition columns_distinct (fs : gmap string FileContent) : Prop :=
  Forall (λ y, content_distinct (fs !! file_path y)) scan_years.

Global Instance columns_distinct_dec fs : Decision (columns_distinct fs).
Proof. unfold columns_distinct. apply _. Defined.

(** Every parsed file of the range has the labels [cols]. *)
Definition content_has_columns (cols : list string) (c : option FileContent) : Prop :=
  match c with
  | Some (Csv df) => columns df = cols
  | _ => True
  end.

Global Instance content_has_columns_dec cols c : Decision (content_has_columns cols c).
Proof. destruct c as [[df|]|]; simpl; apply _. Defined.

Definition uniform_columns (fs : gmap string FileContent) (cols : list string) : Prop :=
  Forall (λ y, content_has_columns cols (fs !! file_path y)) scan_years.

Global Instance uniform_columns_dec fs cols : Decision (uniform_columns fs cols).
Proof. unfold uniform_columns. apply _. Defined.


(** [2019.csv] has a [doors] column, [2020.csv] has not. *)
Definition folder_mixed_columns : gmap string FileContent :=
  {[ file_path 2019 :=
       Csv {| columns := ["make"; "doors"]; rows := [[CText "Honda"; CInt 2]] |};
     file_path 2020 :=
       Csv {| columns := ["make"; "model"]; rows := [[CText "Toyota"; CText "Corolla"]] |} ]}.

(** [2020.csv], and beside it files the scan has no candidate for. *)
Definition folder_with_strays : gmap string FileContent :=
  <[ file_path 1980 := Malformed ]>
    (<[ "./us_car_models_data_master/README.md" := Malformed ]> folder_2020).

(** A store with a second table in the output file and a second file. *)
Definition store_with_neighbours : gmap string (gmap string Table) :=
  {[ output_db :=
       {[ "all_cars" := {| tcolumns := ["year"]; trows := [[CInt 1980]] |};
          "dealers" := {| tcolumns := ["name"]; trows := [[CText "Ann"]] |} ]};
     "./other.db" :=
       {[ "all_cars" := {| tcolumns := ["year"]; trows := [[CInt 1]] |} ]} ]}.

(** ** Facts about the loop *)

Lemma foldM_scan_year (years : list Z) (acc : list DataFrame) (w : World) :
  foldM scan_year acc years w =
  (scan_outcome (files w) acc years,
   {| files := files w; dbs := dbs w; conn := conn w;
      trace := trace w ++ scan_trace (files w) years |}).
Proof.
  revert acc w. induction years as [|y ys IH]; intros acc w; simpl.
  - rewrite app_nil_r. by destruct w.
  - unfold mbind, Script_bind, scan_year at 1, mbind, Script_bind,
      os_path_exists, pd_read_csv, print, emit, mret, Script_ret.
    destruct (files w !! file_path y) as [[df|]|] eqn:Hf; simpl; rewrite ?Hf; simpl.
    + rewrite IH. simpl. by rewrite <- !app_assoc.
    + unfold log; simpl. by rewrite <- app_assoc.
    + rewrite IH. simpl. by rewrite <- !app_assoc.
Qed.

Lemma scan_outcome_all_parse fs acc years :
  all_parse fs years → scan_outcome fs acc years = inr (acc ++ collected fs years).
Proof.
  unfold all_parse, collected. revert acc.
  induction years as [|y ys IH]; intros acc Hp; simpl.
  - by rewrite app_nil_r.
  - inversion_clear Hp as [|?? Hy Hys].
    destruct (fs !! file_path y) as [[df|]|]; simpl.
    + rewrite IH by done. by rewrite <- app_assoc.
    + done.
    + by apply IH.
Qed.

Lemma scan_outcome_malformed fs acc years :
  ¬ all_parse fs years →
  ∃ y, y ∈ years ∧ fs !! file_path y = Some Malformed ∧
       scan_outcome fs acc years = inl (ParserError (file_path y)).
Proof.
  unfold all_parse. revert acc.
  induction years as [|y ys IH]; intros acc Hp; simpl.
  - destruct Hp. constructor.
  - destruct (fs !! file_path y) as [[df|]|] eqn:Hf.
    + destruct (IH (acc ++ [tagged y df])) as (y' & ? & ? & ?).
      { intros Hys. apply Hp. by constructor; [rewrite Hf|]. }
      exists y'. split_and!; [by constructor|done..].
    + exists y. split_and!; [by constructor|done..].
    + destruct (IH acc) as (y' & ? & ? & ?).
      { intros Hys. apply Hp. by constructor; [rewrite Hf|]. }
      exists y'. split_and!; [by constructor|done..].
Qed.

(** ** Facts about a whole run *)

Lemma run_unfold fs store :
  run fs store =
  match scan_outcome fs [] scan_years with
  | inl e =>
      (inl e, {| files := fs; dbs := store; conn := None;
                 trace := scan_trace fs scan_years |})
  | inr [] =>
      (inl no_data_found, {| files := fs; dbs := store; conn := None;
                             trace := scan_trace fs scan_years |})
  | inr dfs =>
      (inr tt, {| files := fs; dbs := written store (table_of dfs); conn := None;
                  trace := scan_trace fs scan_years ++ store_trace |})
  end.
Proof.
  unfold run, main. generalize scan_years; intros years.
  unfold mbind at 1, Script_bind at 1.
  rewrite foldM_scan_year. simpl.
  destruct (scan_outcome fs [] years) as [e|[|df dfs]]; [done..|].
  unfold written, table_of, pd_concat.
  generalize (concat_frames (df :: dfs)); intros all_cars.
  unfold sqlite3_connect, cursor_execute, to_sql, conn_commit,
    conn_close, print, emit, on_connection, log.
  unfold mbind, Script_bind, mret, Script_ret; simpl.
  destruct (default ∅ (store !! output_db) !! "all_cars") eqn:Ht; simpl.
  - rewrite Ht. simpl. by rewrite insert_insert_eq, <- !app_assoc.
  - rewrite lookup_insert_eq. simpl. by rewrite !insert_insert_eq, <- !app_assoc.
Qed.

(** ** Facts about data frames *)

Section frames.
Implicit Types (c : string) (cols : list string) (r : Row) (df : DataFrame).

Lemma index_of_Some c cols i : index_of c cols = Some i → cols !! i = Some c.
Proof.
  revert i. induction cols as [|c' cols IH]; intros i; simpl; [done|].
  case_decide as Hc.
  - intros [= <-]. by subst.
  - destruct (index_of c cols) as [j|]; simpl; [|done].
    intros [= <-]. by apply IH.
Qed.

Lemma index_of_None c cols : index_of c cols = None ↔ c ∉ cols.
Proof.
  induction cols as [|c' cols IH]; simpl.
  - split; [intros _; apply not_elem_of_nil|done].
  - rewrite not_elem_of_cons. case_decide as Hc.
    + split; [done|]. by intros [? _].
    + rewrite fmap_None, IH. tauto.
Qed.

Lemma index_of_elem c cols : c ∈ cols → is_Some (index_of c cols).
Proof.
  intros Hin. destruct (index_of c cols) eqn:Hi; [eauto|].
  by apply index_of_None in Hi.
Qed.

Lemma index_of_app_l c cols cols' :
  c ∈ cols → index_of c (cols ++ cols') = index_of c cols.
Proof.
  induction cols as [|c' cols IH]; simpl.
  - by intros ?%elem_of_nil.
  - intros Hin. case_decide; [done|].
    apply elem_of_cons in Hin as [?|Hin]; [done|]. by rewrite IH.
Qed.

Lemma index_of_app_r c cols :
  c ∉ cols → index_of c (cols ++ [c]) = Some (length cols).
Proof.
  induction cols as [|c' cols IH]; simpl.
  - intros _. by rewrite decide_True.
  - rewrite not_elem_of_cons. intros [Hne Hni].
    rewrite decide_False by done. by rewrite IH.
Qed.

(** Realigning keeps the cell under every label of the target. *)
Lemma row_get_reindex cols cols' r c :
  c ∈ cols' →
  row_get cols' (reindex cols cols' r) c = Some (default CNaN (row_get cols r c)).
Proof.
  intros [i Hi]%index_of_elem. unfold row_get at 1, reindex.
  rewrite Hi. simpl. rewrite list_lookup_fmap.
  by rewrite (index_of_Some _ _ _ Hi).
Qed.

Lemma tagged_rows_length y df : length (rows (tagged y df)) = length (rows df).
Proof.
  unfold tagged, setitem.
  destruct (index_of "year" (columns df)); simpl; by rewrite length_fmap.
Qed.

Lemma tagged_has_year y df : "year" ∈ columns (tagged y df).
Proof.
  unfold tagged, setitem.
  destruct (index_of "year" (columns df)) as [i|] eqn:Hi; simpl.
  - apply list_elem_of_lookup. exists i. by apply index_of_Some.
  - apply elem_of_app. right. by apply list_elem_of_singleton.
Qed.

Lemma tagged_columns y df c :
  c ∈ columns (tagged y df) ↔ c = "year" ∨ c ∈ columns df.
Proof.
  unfold tagged, setitem.
  destruct (index_of "year" (columns df)) as [i|] eqn:Hi; simpl.
  - split; [by right|]. intros [->|?]; [|done].
    apply list_elem_of_lookup. exists i. by apply index_of_Some.
  - rewrite elem_of_app, list_elem_of_singleton. tauto.
Qed.

(** The forced year is what every row of a tagged frame carries. *)
Lemma tagged_year y df r :
  rectangular df → r ∈ rows (tagged y df) →
  row_get (columns (tagged y df)) r "year" = Some (CInt y).
Proof.
  unfold rectangular, tagged, setitem, row_get. intros Hrect.
  destruct (index_of "year" (columns df)) as [i|] eqn:Hi; simpl.
  - intros (r0 & -> & Hr0)%list_elem_of_fmap. rewrite Hi. simpl.
    apply list_lookup_insert_eq.
    rewrite Forall_forall in Hrect. rewrite (Hrect _ Hr0).
    apply index_of_Some in Hi. by apply lookup_lt_Some in Hi.
  - intros (r0 & -> & Hr0)%list_elem_of_fmap.
    apply index_of_None in Hi. rewrite index_of_app_r by done. simpl.
    rewrite Forall_forall in Hrect. rewrite <- (Hrect _ Hr0).
    by rewrite lookup_app_r, Nat.sub_diag by lia.
Qed.

(** The [i]-th row of a tagged frame is the [i]-th row of the frame,
    with the same cell under every label but [year]. *)
Lemma tagged_row_other y df i r c :
  rectangular df → rows df !! i = Some r → c ≠ "year" → c ∈ columns df →
  ∃ r', rows (tagged y df) !! i = Some r' ∧
        row_get (columns (tagged y df)) r' c = row_get (columns df) r c.
Proof.
  unfold rectangular, tagged, setitem, row_get. intros Hrect Hr Hc Hin.
  destruct (index_of "year" (columns df)) as [j|] eqn:Hj; simpl.
  - exists (<[j := CInt y]> r). rewrite list_lookup_fmap, Hr. split; [done|].
    destruct (index_of c (columns df)) as [k|] eqn:Hk; simpl; [|done].
    apply list_lookup_insert_ne. intros ->.
    apply index_of_Some in Hj, Hk. congruence.
  - exists (r ++ [CInt y]). rewrite list_lookup_fmap, Hr. split; [done|].
    rewrite index_of_app_l by done.
    destruct (index_of c (columns df)) as [k|] eqn:Hk; simpl; [|done].
    apply lookup_app_l.
    rewrite Forall_forall in Hrect.
    rewrite (Hrect r) by (by eapply list_elem_of_lookup_2).
    apply index_of_Some in Hk. by apply lookup_lt_Some in Hk.
Qed.

Lemma add_columns_elem acc cols c :
  c ∈ add_columns acc cols ↔ c ∈ acc ∨ c ∈ cols.
Proof.
  unfold add_columns. rewrite elem_of_app, list_elem_of_difference.
  destruct (decide (c ∈ acc)); tauto.
Qed.

Lemma union_columns_from_elem acc (dfs : list DataFrame) c :
  c ∈ foldl (λ acc df, add_columns acc (columns df)) acc dfs ↔
  c ∈ acc ∨ ∃ df, df ∈ dfs ∧ c ∈ columns df.
Proof.
  revert acc. induction dfs as [|df dfs IH]; intros acc; simpl.
  - split; [by left|]. intros [?|(? & ?%elem_of_nil & _)]; done.
  - rewrite IH, add_columns_elem. split.
    + intros [[?|?]|(df' & ? & ?)]; [by left| |].
      * right. exists df. split; [by left|done].
      * right. exists df'. split; [by right|done].
    + intros [?|(df' & [->|?]%elem_of_cons & ?)]; [by left;left|by left;right|].
      right. by exists df'.
Qed.

(** The labels of a concatenation are the labels of its frames. *)
Lemma union_columns_elem (dfs : list DataFrame) c :
  c ∈ union_columns dfs ↔ ∃ df, df ∈ dfs ∧ c ∈ columns df.
Proof.
  unfold union_columns. rewrite union_columns_from_elem.
  split; [intros [?%elem_of_nil|?]; done|by right].
Qed.
End frames.

(** ** Facts about the collected frames *)

Lemma collected_elem fs years df' :
  df' ∈ collected fs years ↔
  ∃ y df, y ∈ years ∧ fs !! file_path y = Some (Csv df) ∧ df' = tagged y df.
Proof.
  unfold collected. rewrite list_elem_of_omap. split.
  - intros (y & Hy & Hf). exists y.
    destruct (fs !! file_path y) as [[df|]|]; [|done..].
    exists df. by simplify_eq.
  - intros (y & df & Hy & Hf & ->). exists y. by rewrite Hf.
Qed.

(** The rows of the concatenation, file by file in the order of the scan. *)
Lemma collected_rows fs cols years :
  collected fs years ≫= realigned_rows cols = years ≫= contribution fs cols.
Proof.
  unfold collected, contribution.
  induction years as [|y ys IH]; simpl; [done|].
  destruct (fs !! file_path y) as [[df|]|]; simpl; [f_equal|..]; apply IH.
Qed.

Lemma collected_nil fs years :
  collected fs years = [] ↔
  ∀ y, y ∈ years → ∀ df, fs !! file_path y ≠ Some (Csv df).
Proof.
  split.
  - intros Hnil y Hy df Hf.
    assert (tagged y df ∈ collected fs years) as Hin
      by (apply collected_elem; eauto).
    rewrite Hnil in Hin. by apply elem_of_nil in Hin.
  - intros Hno. destruct (collected fs years) as [|df' ?] eqn:Hc; [done|].
    assert (df' ∈ collected fs years) as Hin by (rewrite Hc; left).
    apply collected_elem in Hin as (y & df & Hy & Hf & _).
    by destruct (Hno y Hy df).
Qed.

(** ** Facts about file names and notices *)

Lemma string_length_app (a s : string) :
  String.length (a +:+ s) = (String.length a + String.length s)%nat.
Proof.
  induction a as [|ch a IH]; [done|].
  change (String ch a +:+ s) with (String ch (a +:+ s)). simpl. by rewrite IH.
Qed.

Lemma string_app_inj_r (a b s : string) : a +:+ s = b +:+ s → a = b.
Proof.
  revert b. induction a as [|ch a IH]; intros [|ch' b] Heq; [done|..].
  - apply (f_equal String.length) in Heq.
    rewrite !string_length_app in Heq. simpl in Heq. lia.
  - apply (f_equal String.length) in Heq.
    rewrite !string_length_app in Heq. simpl in Heq. lia.
  - change (String ch (a +:+ s) = String ch' (b +:+ s)) in Heq.
    injection Heq as -> Heq. f_equal. by apply IH.
Qed.

Lemma scan_years_elem y : y ∈ scan_years ↔ in_range y.
Proof. unfold scan_years, range, in_range. rewrite elem_of_seqZ. lia. Qed.

Lemma scan_years_NoDup : NoDup scan_years.
Proof. apply NoDup_seqZ. Qed.

Lemma scan_years_split y :
  in_range y →
  scan_years = seqZ 1992 (y - 1992) ++ y :: seqZ (y + 1) (2026 - y).
Proof.
  unfold in_range, scan_years, range. intros Hy.
  replace (2027 - 1992) with ((y - 1992) + (2027 - y)) by lia.
  rewrite seqZ_app by lia. f_equal.
  rewrite seqZ_cons by lia. f_equal; [lia|]. f_equal; lia.
Qed.

(** From here on the list of years is only used through the facts above. *)
Opaque scan_years.

(** The candidate file of a year of the range: [<year>.csv] in the folder. *)
Lemma file_path_in_range y :
  in_range y → file_path y = csv_folder +:+ "/" +:+ pretty y +:+ ".csv".
Proof.
  intros Hy%scan_years_elem. revert y Hy. apply Forall_forall.
  eapply bool_decide_unpack. by vm_compute.
Qed.

Lemma file_path_inj y y' :
  in_range y → in_range y' → file_path y = file_path y' → y = y'.
Proof.
  intros Hy Hy'. rewrite !file_path_in_range by done.
  intros Heq%(inj (String.app _))%(inj (String.app _))%string_app_inj_r.
  by apply (inj pretty).
Qed.

Lemma skip_notice_inj y y' : skip_notice y = skip_notice y' → y = y'.
Proof.
  unfold skip_notice.
  intros Heq%(inj (String.app _))%string_app_inj_r. by apply (inj pretty).
Qed.


(** ** Facts about the trace of the loop *)

Lemma scan_trace_app fs l1 l2 :
  all_parse fs l1 → scan_trace fs (l1 ++ l2) = scan_trace fs l1 ++ scan_trace fs l2.
Proof.
  unfold all_parse. induction l1 as [|y l1 IH]; intros Hp; simpl; [done|].
  inversion_clear Hp as [|?? Hy Hl1].
  destruct (fs !! file_path y) as [[df|]|]; simpl; [|done|]; by rewrite IH.
Qed.

Lemma scan_trace_no_store fs years :
  Forall (λ e, is_store_event e = false) (scan_trace fs years).
Proof.
  induction years as [|y ys IH]; simpl; [constructor|].
  destruct (fs !! file_path y) as [[df|]|]; repeat constructor; done.
Qed.

Lemma probed_scan_trace_prefix fs years :
  probed (scan_trace fs years) `prefix_of` file_path <$> years.
Proof.
  induction years as [|y ys IH]; simpl; [done|].
  destruct (fs !! file_path y) as [[df|]|]; simpl.
  - by apply prefix_cons.
  - apply prefix_cons, prefix_nil.
  - by apply prefix_cons.
Qed.

Lemma probed_scan_trace fs years :
  all_parse fs years → probed (scan_trace fs years) = file_path <$> years.
Proof.
  unfold all_parse. induction years as [|y ys IH]; intros Hp; simpl; [done|].
  inversion_clear Hp as [|?? Hy Hys].
  destruct (fs !! file_path y) as [[df|]|]; simpl; [|done|]; f_equal; by apply IH.
Qed.

Lemma read_scan_trace fs years p :
  p ∈ read (scan_trace fs years) →
  ∃ y, y ∈ years ∧ p = file_path y ∧ is_Some (fs !! file_path y).
Proof.
  induction years as [|y ys IH]; simpl; [by intros ?%elem_of_nil|].
  destruct (fs !! file_path y) as [[df|]|] eqn:Hf; simpl.
  - intros [->|Hin]%elem_of_cons.
    + exists y. rewrite Hf. split_and!; [left|done|eauto].
    + destruct (IH Hin) as (y' & ? & ? & ?). exists y'. split_and!; [by right|done..].
  - intros ->%list_elem_of_singleton.
    exists y. rewrite Hf. split_and!; [left|done|eauto].
  - intros Hin. destruct (IH Hin) as (y' & ? & ? & ?).
    exists y'. split_and!; [by right|done..].
Qed.



(** ** The three ways a run ends *)

Lemma all_cars_table_written store t files0 conn0 tr :
  all_cars_table {| files := files0; dbs := written store t; conn := conn0; trace := tr |}
  = Some t.
Proof.
  unfold all_cars_table, written. simpl.
  rewrite lookup_insert_eq. simpl. by rewrite lookup_insert_eq.
Qed.

Lemma run_success fs store :
  all_parse fs scan_years → collected fs scan_years ≠ [] →
  run fs store =
  (inr tt, {| files := fs; dbs := written store (table_of (collected fs scan_years));
              conn := None; trace := scan_trace fs scan_years ++ store_trace |}).
Proof.
  intros Hp Hne. rewrite run_unfold, scan_outcome_all_parse by done.
  rewrite app_nil_l. revert Hne. generalize scan_years; intros years.
  by destruct (collected fs years).
Qed.

Lemma run_no_data fs store :
  all_parse fs scan_years → collected fs scan_years = [] →
  run fs store =
  (inl no_data_found, {| files := fs; dbs := store; conn := None;
                         trace := scan_trace fs scan_years |}).
Proof.
  intros Hp Hnil. rewrite run_unfold, scan_outcome_all_parse by done.
  by rewrite app_nil_l, Hnil.
Qed.

Lemma run_parse_error fs store :
  ¬ all_parse fs scan_years →
  ∃ y, in_range y ∧ fs !! file_path y = Some Malformed ∧
       run fs store =
       (inl (ParserError (file_path y)),
        {| files := fs; dbs := store; conn := None;
           trace := scan_trace fs scan_years |}).
Proof.
  intros Hp. destruct (scan_outcome_malformed fs [] scan_years Hp) as (y & Hy & Hf & Ho).
  exists y. split_and!; [by apply scan_years_elem|done|].
  by rewrite run_unfold, Ho.
Qed.

Lemma run_success_inv fs store w' :
  run fs store = (inr tt, w') →
  all_parse fs scan_years ∧ collected fs scan_years ≠ [] ∧
  w' = {| files := fs; dbs := written store (table_of (collected fs scan_years));
          conn := None; trace := scan_trace fs scan_years ++ store_trace |}.
Proof.
  intros Hrun. destruct (decide (all_parse fs scan_years)) as [Hp|Hp].
  - destruct (decide (collected fs scan_years = [])) as [Hnil|Hne].
    + by rewrite run_no_data in Hrun.
    + rewrite run_success in Hrun by done. by simplify_eq.
  - destruct (run_parse_error fs store Hp) as (y & _ & _ & Hrun').
    by rewrite Hrun' in Hrun.
Qed.

(** The rows of the table a run writes, file by file. *)
Lemma table_of_collected_rows fs years :
  trows (table_of (collected fs years)) =
  years ≫= contribution fs (tcolumns (table_of (collected fs years))).
Proof. unfold table_of, concat_frames. simpl. apply collected_rows. Qed.

Lemma table_of_collected_columns fs years c :
  c ∈ tcolumns (table_of (collected fs years)) ↔
  ∃ y df, y ∈ years ∧ fs !! file_path y = Some (Csv df) ∧
          (c = "year" ∨ c ∈ columns df).
Proof.
  unfold table_of, concat_frames. simpl. rewrite union_columns_elem. split.
  - intros (df' & (y & df & ? & ? & ->)%collected_elem & Hc%tagged_columns). eauto 6.
  - intros (y & df & ? & ? & Hc). exists (tagged y df).
    split; [apply collected_elem; eauto|by apply tagged_columns].
Qed.

(** ** Facts about what a file contributes *)

Lemma frames_rectangular_lookup fs y df :
  frames_rectangular fs → in_range y → fs !! file_path y = Some (Csv df) →
  rectangular df.
Proof.
  unfold frames_rectangular. rewrite Forall_forall.
  intros Hall Hy%scan_years_elem Hf. specialize (Hall y Hy). by rewrite Hf in Hall.
Qed.





(** Every row a file contributes carries the year of the file name. *)
Lemma contribution_year fs cols y r :
  content_rectangular (fs !! file_path y) → "year" ∈ cols →
  r ∈ contribution fs cols y → row_get cols r "year" = Some (CInt y).
Proof.
  unfold contribution, realigned_rows. intros Hrect Hyear.
  destruct (fs !! file_path y) as [[df|]|]; [|by intros ?%elem_of_nil..].
  intros (r0 & -> & Hr0)%list_elem_of_fmap.
  rewrite row_get_reindex by done. by rewrite (tagged_year y df r0).
Qed.


Lemma table_of_collected_has_year fs years :
  collected fs years ≠ [] → "year" ∈ tcolumns (table_of (collected fs years)).
Proof.
  intros Hne. apply table_of_collected_columns.
  destruct (collected fs years) as [|df' l] eqn:Hc; [done|].
  assert (df' ∈ collected fs years) as Hin by (rewrite Hc; left).
  apply collected_elem in Hin as (y & df & ? & ? & _). exists y, df. eauto.
Qed.

(** ** The claims *)

(** C1.  In a run that writes the table, the rows of [all_cars] are the
    contributions of the files of the range, and every row contributed by
    [<y>.csv] carries the year [y], whatever [year] cells the file had. *)
Theorem year_forced_to_file_name fs store w' :
  frames_rectangular fs →
  run fs store = (inr tt, w') →
  ∃ t, all_cars_table w' = Some t ∧
       trows t = scan_years ≫= contribution fs (tcolumns t) ∧
       ∀ y r, in_range y → r ∈ contribution fs (tcolumns t) y →
              row_get (tcolumns t) r "year" = Some (CInt y).
Proof.
  intros Hrect (Hp & Hne & ->)%run_success_inv.
  exists (table_of (collected fs scan_years)). split_and!.
  - apply all_cars_table_written.
  - apply table_of_collected_rows.
  - intros y r Hy%scan_years_elem Hr.
    apply (contribution_year fs _ y r); [|by apply table_of_collected_has_year|done].
    unfold frames_rectangular in Hrect. rewrite Forall_forall in Hrect. by apply Hrect.
Qed.

Lemma year_forced_to_file_name_witness :
  frames_rectangular folder_2020_stale_year ∧
  all_cars_table (run folder_2020_stale_year ∅).2 =
    Some {| tcolumns := ["year"; "make"; "model"; "body_styles"];
            trows := [CInt 2020 :: corolla] |} ∧
  ∃ t, all_cars_table (run folder_2020_stale_year ∅).2 = Some t ∧
       trows t = scan_years ≫= contribution folder_2020_stale_year (tcolumns t) ∧
       ∀ y r, in_range y → r ∈ contribution folder_2020_stale_year (tcolumns t) y →
              row_get (tcolumns t) r "year" = Some (CInt y).
Proof.
  split_and!.
  - eapply bool_decide_unpack. vm_compute. exact I.
  - vm_compute. reflexivity.
  - apply (year_forced_to_file_name folder_2020_stale_year ∅).
    + eapply bool_decide_unpack. vm_compute. exact I.
    + vm_compute. reflexivity.
Defined.

(** C2.  When no file of the range exists, the run raises the
    no-data error, and the store is as it was: the database files are
    unchanged, no connection is open and no store call was made. *)
Theorem no_data_found_before_store fs store :
  (∀ y, in_range y → fs !! file_path y = None) →
  ∃ w', run fs store = (inl no_data_found, w') ∧
        dbs w' = store ∧ conn w' = None ∧
        Forall (λ e, is_store_event e = false) (trace w').
Proof.
  intros Hnone.
  assert (all_parse fs scan_years) as Hp.
  { apply Forall_forall. intros y Hy%scan_years_elem. by rewrite Hnone. }
  assert (collected fs scan_years = []) as Hnil.
  { apply collected_nil. intros y Hy%scan_years_elem df. by rewrite Hnone. }
  eexists. split; [by apply run_no_data|]. simpl.
  split_and!; [done..|]. apply scan_trace_no_store.
Qed.

Lemma no_data_found_before_store_witness :
  (∀ y, in_range y → (∅ : gmap string FileContent) !! file_path y = None) ∧
  ∃ w', run ∅ store_with_old_table = (inl no_data_found, w') ∧
        dbs w' = store_with_old_table ∧ conn w' = None ∧
        Forall (λ e, is_store_event e = false) (trace w').
Proof.
  split.
  - intros y _. apply lookup_empty.
  - apply (no_data_found_before_store ∅ store_with_old_table).
    intros y _. apply lookup_empty.
Defined.

(** The trace of any run: the loop, then the store calls if it got there. *)
Lemma run_trace fs store :
  ∃ tl, trace (run fs store).2 = scan_trace fs scan_years ++ tl ∧
        (tl = [] ∨ tl = store_trace).
Proof.
  rewrite run_unfold.
  destruct (scan_outcome fs [] scan_years) as [e|[|df dfs]]; simpl.
  - exists []. by rewrite app_nil_r; auto.
  - exists []. by rewrite app_nil_r; auto.
  - exists store_trace. auto.
Qed.

Lemma scan_years_listing : scan_years = seqZ 1992 35.
Proof. by vm_compute. Qed.


(** C3.  The loop runs over the years 1992 to 2026 and no other, in
    ascending order; the candidate of a year is [<year>.csv] in the CSV
    folder; whatever a run probes or reads is such a candidate, and a run
    that no unparseable file cuts short probes every candidate once. *)
Theorem scan_covers_exactly_the_range fs store :
  scan_years = seqZ 1992 35 ∧
  (∀ y, y ∈ scan_years ↔ 1992 ≤ y ≤ 2026) ∧
  (∀ y, 1992 ≤ y ≤ 2026 →
        file_path y = csv_folder +:+ "/" +:+ pretty y +:+ ".csv") ∧
  (∀ p, p ∈ probed (trace (run fs store).2) ∨ p ∈ read (trace (run fs store).2) →
        ∃ y, 1992 ≤ y ≤ 2026 ∧ p = file_path y) ∧
  probed (trace (run fs store).2) `prefix_of` file_path <$> scan_years ∧
  (all_parse fs scan_years →
   probed (trace (run fs store).2) = file_path <$> scan_years).
Proof.
  destruct (run_trace fs store) as (tl & -> & Htl).
  assert (probed tl = [] ∧ read tl = []) as [Hpr Hrd]
    by (by destruct Htl as [-> | ->]).
  unfold probed, read in *. rewrite !omap_app, Hpr, Hrd, !app_nil_r.
  split_and!.
  - apply scan_years_listing.
  - apply scan_years_elem.
  - apply file_path_in_range.
  - intros p [Hp|Hp].
    + pose proof (probed_scan_trace_prefix fs scan_years) as [k Hk].
      assert (p ∈ file_path <$> scan_years) as (y & -> & Hy)%list_elem_of_fmap.
      { unfold probed in Hk. rewrite Hk. apply elem_of_app. by left. }
      exists y. split; [by apply scan_years_elem|done].
    + apply read_scan_trace in Hp as (y & Hy & -> & _).
      exists y. split; [by apply scan_years_elem|done].
  - apply probed_scan_trace_prefix.
  - apply probed_scan_trace.
Qed.

Lemma scan_covers_exactly_the_range_witness :
  all_parse folder_first_last scan_years ∧
  probed (trace (run folder_first_last ∅).2) = file_path <$> scan_years.
Proof.
  split.
  - eapply bool_decide_unpack. vm_compute. exact I.
  - apply (scan_covers_exactly_the_range folder_first_last ∅).
    eapply bool_decide_unpack. vm_compute. exact I.
Defined.



(** ** Counting occurrences *)





Lemma written_twice store t : written (written store t) t = written store t.
Proof.
  unfold written. rewrite lookup_insert_eq. simpl.
  by rewrite !insert_insert_eq.
Qed.

(** C5.  A second run on the same folder ends as the first did and leaves
    the store as the first left it: the table [all_cars] is replaced by
    the table of the folder, not extended. *)
Theorem second_run_changes_nothing fs store :
  files (run fs store).2 = fs ∧
  (run fs (dbs (run fs store).2)).1 = (run fs store).1 ∧
  dbs (run fs (dbs (run fs store).2)).2 = dbs (run fs store).2 ∧
  all_cars_table (run fs (dbs (run fs store).2)).2 = all_cars_table (run fs store).2 ∧
  ((run fs store).1 = inr tt →
   all_cars_table (run fs store).2 = Some (table_of (collected fs scan_years))).
Proof.
  destruct (decide (all_parse fs scan_years)) as [Hp|Hp].
  - destruct (decide (collected fs scan_years = [])) as [Hnil|Hne].
    + rewrite !(run_no_data fs) by done. simpl. by split_and!.
    + rewrite !(run_success fs) by done. simpl.
      rewrite written_twice. split_and!; try done.
      intros _. apply all_cars_table_written.
  - destruct (run_parse_error fs store Hp) as (y & _ & _ & Hrun).
    rewrite !Hrun. simpl. rewrite !Hrun. by split_and!.
Qed.

Lemma second_run_changes_nothing_witness :
  (run folder_2020 store_with_old_table).1 = inr tt ∧
  all_cars_table (run folder_2020 store_with_old_table).2 =
    Some (table_of (collected folder_2020 scan_years)) ∧
  table_of (collected folder_2020 scan_years) =
    {| tcolumns := ["make"; "model"; "body_styles"; "year"];
       trows := [corolla ++ [CInt 2020]] |}.
Proof.
  split_and!.
  - vm_compute. reflexivity.
  - apply (second_run_changes_nothing folder_2020 store_with_old_table).
    vm_compute. reflexivity.
  - vm_compute. reflexivity.
Defined.





(** ** A folder with a single file, columns of a single frame *)

Lemma list_difference_nil_r (l : list string) : list_difference l [] = l.
Proof.
  induction l as [|x l IH]; simpl; [done|].
  destruct (decide_rel elem_of x []) as [Hin|_]; [by apply elem_of_nil in Hin|].
  by rewrite IH.
Qed.

Lemma union_columns_singleton df : union_columns [df] = columns df.
Proof. unfold union_columns, add_columns. simpl. apply list_difference_nil_r. Qed.

Lemma collected_app fs l1 l2 :
  collected fs (l1 ++ l2) = collected fs l1 ++ collected fs l2.
Proof. unfold collected. apply omap_app. Qed.

Lemma collected_only fs y df :
  in_range y → fs !! file_path y = Some (Csv df) →
  (∀ y', in_range y' → y' ≠ y → fs !! file_path y' = None) →
  collected fs scan_years = [tagged y df].
Proof.
  intros Hy Hf Hothers. rewrite (scan_years_split y) by done.
  rewrite collected_app.
  change (y :: seqZ (y + 1) (2026 - y)) with ([y] ++ seqZ (y + 1) (2026 - y)).
  rewrite (collected_app fs [y]).
  assert (collected fs [y] = [tagged y df]) as -> by (unfold collected; simpl; by rewrite Hf).
  unfold in_range in *.
  rewrite (proj2 (collected_nil fs (seqZ 1992 (y - 1992)))).
  - rewrite (proj2 (collected_nil fs (seqZ (y + 1) (2026 - y)))); [done|].
    intros y' Hy'%elem_of_seqZ df'. rewrite Hothers by lia. done.
  - intros y' Hy'%elem_of_seqZ df'. rewrite Hothers by lia. done.
Qed.

(** C7.  The columns of the written table are the union of the columns
    of the parsed files and [year], in order of first appearance; the
    table is the same whatever the store held before, a table of the
    declared columns included, and for a single file its columns are
    exactly those of the file with its year. *)
Theorem persisted_columns_are_the_union fs store w' :
  run fs store = (inr tt, w') →
  ∃ t, all_cars_table w' = Some t ∧
    tcolumns t = union_columns (collected fs scan_years) ∧
    (∀ c, c ∈ tcolumns t ↔
          c = "year" ∨
          ∃ y df, 1992 ≤ y ≤ 2026 ∧ fs !! file_path y = Some (Csv df) ∧ c ∈ columns df) ∧
    (∀ store', all_cars_table (run fs store').2 = Some t) ∧
    (∀ y df, 1992 ≤ y ≤ 2026 → fs !! file_path y = Some (Csv df) →
       (∀ y', 1992 ≤ y' ≤ 2026 → y' ≠ y → fs !! file_path y' = None) →
       tcolumns t = columns (tagged y df)).
Proof.
  intros (Hp & Hne & ->)%run_success_inv.
  exists (table_of (collected fs scan_years)). split_and!.
  - apply all_cars_table_written.
  - done.
  - intros c. split.
    + intros (y & df & Hy%scan_years_elem & Hf & [->|Hc])%table_of_collected_columns;
        [by left|]. right. by exists y, df.
    + intros [->|(y & df & Hy & Hf & Hc)].
      * by apply table_of_collected_has_year.
      * apply table_of_collected_columns. exists y, df.
        split_and!; [by apply scan_years_elem|done|by right].
  - intros store'. rewrite run_success by done. apply all_cars_table_written.
  - intros y df Hy Hf Hothers. unfold table_of, concat_frames. simpl.
    rewrite (collected_only fs y df) by done. apply union_columns_singleton.
Qed.

Lemma persisted_columns_are_the_union_witness :
  run folder_other_columns ∅ = (inr tt, (run folder_other_columns ∅).2) ∧
  all_cars_table (run folder_other_columns ∅).2 =
    Some {| tcolumns := ["make"; "doors"; "year"];
            trows := [[CText "Toyota"; CInt 4; CInt 2020]] |} ∧
  ∃ t, all_cars_table (run folder_other_columns ∅).2 = Some t ∧
       ∀ store', all_cars_table (run folder_other_columns store').2 = Some t.
Proof.
  split_and!.
  - vm_compute. reflexivity.
  - vm_compute. reflexivity.
  - destruct (persisted_columns_are_the_union folder_other_columns ∅
                (run folder_other_columns ∅).2) as (t & Ht & _ & _ & Hany & _).
    + vm_compute. reflexivity.
    + exists t. split; [exact Ht|exact Hany].
Defined.

(** C8.  When a file of the range does not parse, the run raises the
    parse error of such a file and the store is as it was: database
    files unchanged, no connection, no store call.  In every run all
    reads come before all store calls. *)
Theorem malformed_csv_aborts_before_store fs store :
  ((∃ y, 1992 ≤ y ≤ 2026 ∧ fs !! file_path y = Some Malformed) →
   ∃ y' w', 1992 ≤ y' ≤ 2026 ∧ fs !! file_path y' = Some Malformed ∧
            run fs store = (inl (ParserError (file_path y')), w') ∧
            dbs w' = store ∧ conn w' = None ∧
            Forall (λ e, is_store_event e = false) (trace w')) ∧
  (∃ before after, trace (run fs store).2 = before ++ after ∧
      Forall (λ e, is_store_event e = false) before ∧
      probed after = [] ∧ read after = []).
Proof.
  split.
  - intros (y & Hy & Hf).
    destruct (run_parse_error fs store) as (y' & Hy' & Hf' & Hrun).
    { unfold all_parse. rewrite Forall_forall. intros Hall.
      by apply (Hall y (proj2 (scan_years_elem y) Hy)). }
    eexists y', _. split; [apply Hy'|]. split; [done|]. split; [apply Hrun|].
    simpl. split_and!; [done..|]. apply scan_trace_no_store.
  - destruct (run_trace fs store) as (tl & Htr & Htl).
    exists (scan_trace fs scan_years), tl.
    split_and!; [done|apply scan_trace_no_store|..];
      by destruct Htl as [-> | ->].
Qed.

Lemma malformed_csv_aborts_before_store_witness :
  (run folder_with_malformed store_with_old_table).1 = inl (ParserError (file_path 2021)) ∧
  dbs (run folder_with_malformed store_with_old_table).2 = store_with_old_table ∧
  ∃ y' w', 1992 ≤ y' ≤ 2026 ∧ folder_with_malformed !! file_path y' = Some Malformed ∧
           run folder_with_malformed store_with_old_table
             = (inl (ParserError (file_path y')), w') ∧
           dbs w' = store_with_old_table ∧ conn w' = None ∧
           Forall (λ e, is_store_event e = false) (trace w').
Proof.
  split_and!.
  - vm_compute. reflexivity.
  - vm_compute. reflexivity.
  - refine (proj1 (malformed_csv_aborts_before_store folder_with_malformed
                     store_with_old_table) _).
    exists 2021. split; [lia|]. vm_compute. reflexivity.
Defined.






(** ** Further properties of the script *)

Lemma scan_outcome_app fs acc l1 l2 :
  all_parse fs l1 →
  scan_outcome fs acc (l1 ++ l2) = scan_outcome fs (acc ++ collected fs l1) l2.
Proof.
  unfold all_parse, collected. revert acc.
  induction l1 as [|y l1 IH]; intros acc Hp; simpl.
  - by rewrite app_nil_r.
  - inversion_clear Hp as [|?? Hy Hl1].
    destruct (fs !! file_path y) as [[df|]|]; simpl; [|done|by apply IH].
    rewrite IH by done. by rewrite <- app_assoc.
Qed.





(** The two shapes of the world a run leaves. *)
Lemma run_world_cases fs store :
  ((run fs store).1 ≠ inr tt ∧
   (run fs store).2 = {| files := fs; dbs := store; conn := None;
                         trace := scan_trace fs scan_years |}) ∨
  ((run fs store).1 = inr tt ∧
   (run fs store).2 = {| files := fs;
                         dbs := written store (table_of (collected fs scan_years));
                         conn := None;
                         trace := scan_trace fs scan_years ++ store_trace |}).
Proof.
  destruct (decide (all_parse fs scan_years)) as [Hp|Hp].
  - destruct (decide (collected fs scan_years = [])) as [Hc|Hc].
    + rewrite (run_no_data fs store) by done. by left.
    + rewrite (run_success fs store) by done. by right.
  - destruct (run_parse_error fs store Hp) as (y & _ & _ & ->). by left.
Qed.

(** X2.  The parse error a run raises is that of the unparseable file of
    the lowest year: the loop stops at its read, so the candidates up to
    that year are probed and no later year is probed or read. *)
Theorem parse_error_names_first_unparseable fs store y :
  1992 ≤ y ≤ 2026 →
  fs !! file_path y = Some Malformed →
  (∀ y', 1992 ≤ y' < y → fs !! file_path y' ≠ Some Malformed) →
  (run fs store).1 = inl (ParserError (file_path y)) ∧
  trace (run fs store).2 =
    scan_trace fs (seqZ 1992 (y - 1992)) ++ [EExists (file_path y); EReadCsv (file_path y)] ∧
  probed (trace (run fs store).2) = file_path <$> seqZ 1992 (y - 1991) ∧
  (∀ y', y < y' ≤ 2026 →
     (file_path y' ∉ probed (trace (run fs store).2)) ∧
     (file_path y' ∉ read (trace (run fs store).2))).
Proof.
  intros Hy Hf Hbefore.
  assert (all_parse fs (seqZ 1992 (y - 1992))) as Hp.
  { apply Forall_seqZ. intros y' ?. apply Hbefore. lia. }
  assert (scan_outcome fs [] scan_years = inl (ParserError (file_path y))) as Ho.
  { rewrite (scan_years_split y) by done. rewrite scan_outcome_app by done.
    simpl. by rewrite Hf. }
  assert (scan_trace fs scan_years =
          scan_trace fs (seqZ 1992 (y - 1992)) ++
          [EExists (file_path y); EReadCsv (file_path y)]) as Htr.
  { rewrite (scan_years_split y) by done. rewrite scan_trace_app by done.
    simpl. by rewrite Hf. }
  rewrite run_unfold, Ho. simpl. rewrite Htr.
  assert (probed (scan_trace fs (seqZ 1992 (y - 1992)) ++
                  [EExists (file_path y); EReadCsv (file_path y)])
          = file_path <$> seqZ 1992 (y - 1991)) as Hprobed.
  { unfold probed. rewrite omap_app. fold (probed (scan_trace fs (seqZ 1992 (y - 1992)))).
    rewrite probed_scan_trace by done. simpl.
    replace (y - 1991) with ((y - 1992) + 1) by lia.
    rewrite seqZ_app, fmap_app by lia. do 2 f_equal.
    replace (1992 + (y - 1992)) with y by lia. done. }
  split_and!; [done..|]. intros y' Hy'. split.
  - rewrite Hprobed. intros (y'' & Heq & Hy''%elem_of_seqZ)%list_elem_of_fmap.
    apply file_path_inj in Heq; unfold in_range; lia.
  - unfold read. rewrite omap_app. simpl.
    rewrite elem_of_app, list_elem_of_singleton. intros [Hin|Heq].
    + apply read_scan_trace in Hin as (y'' & Hy''%elem_of_seqZ & Heq & _).
      apply file_path_inj in Heq; unfold in_range; lia.
    + apply file_path_inj in Heq; unfold in_range; lia.
Qed.

Lemma parse_error_names_first_unparseable_witness :
  (run folder_with_malformed ∅).1 = inl (ParserError (file_path 2021)) ∧
  length (probed (trace (run folder_with_malformed ∅).2)) = 30%nat.
Proof.
  destruct (parse_error_names_first_unparseable folder_with_malformed ∅ 2021)
    as (Hout & _ & Hprobed & _).
  - lia.
  - vm_compute. reflexivity.
  - intros y' Hy'. unfold folder_with_malformed.
    destruct (decide (file_path 2020 = file_path y')) as [<-|Hne].
    + by rewrite lookup_insert_eq.
    + rewrite lookup_insert_ne by done.
      destruct (decide (file_path 2021 = file_path y')) as [Heq|Hne'].
      * apply file_path_inj in Heq; unfold in_range; lia.
      * by rewrite lookup_singleton_ne.
  - split; [exact Hout|]. rewrite Hprobed. vm_compute. reflexivity.
Defined.

(** X3.  A run touches nothing but the table [all_cars] of the output
    file: every other database file and every other table of the output
    file are as before, and an output file the run had to create holds
    that one table. *)
Theorem run_touches_only_all_cars fs store :
  (∀ p, p ≠ output_db → dbs (run fs store).2 !! p = store !! p) ∧
  (∀ n, n ≠ "all_cars" →
     dbs (run fs store).2 !! output_db ≫= (λ db, db !! n) =
     store !! output_db ≫= (λ db, db !! n)) ∧
  (store !! output_db = None → (run fs store).1 = inr tt →
     dbs (run fs store).2 !! output_db =
     Some {[ "all_cars" := table_of (collected fs scan_years) ]}).
Proof.
  destruct (run_world_cases fs store) as [[Hne ->]|[-> ->]]; simpl.
  - split_and!; [done..|]. by intros _ ?.
  - unfold written. split_and!.
    + intros p Hp. by rewrite lookup_insert_ne.
    + intros n Hn. rewrite lookup_insert_eq. simpl. rewrite lookup_insert_ne by done.
      by destruct (store !! output_db).
    + intros -> _. rewrite lookup_insert_eq. simpl. by rewrite insert_empty.
Qed.

Lemma run_touches_only_all_cars_witness :
  dbs (run folder_2020 store_with_neighbours).2 !! "./other.db" =
    store_with_neighbours !! "./other.db" ∧
  dbs (run folder_2020 store_with_neighbours).2 !! output_db ≫= (λ db, db !! "dealers") =
    Some {| tcolumns := ["name"]; trows := [[CText "Ann"]] |} ∧
  dbs (run folder_2020 ∅).2 !! output_db =
    Some {[ "all_cars" := table_of (collected folder_2020 scan_years) ]}.
Proof.
  destruct (run_touches_only_all_cars folder_2020 store_with_neighbours)
    as (Hfiles & Htables & _).
  destruct (run_touches_only_all_cars folder_2020 ∅) as (_ & _ & Hnew).
  split_and!.
  - apply Hfiles. vm_compute. discriminate.
  - rewrite Htables by (vm_compute; discriminate). vm_compute. reflexivity.
  - apply Hnew; [apply lookup_empty|]. vm_compute. reflexivity.
Defined.





Lemma contribution_nrows fs cols y : length (contribution fs cols y) = nrows fs y.
Proof.
  unfold contribution, nrows, realigned_rows.
  destruct (fs !! file_path y) as [[df|]|]; simpl; [|done..].
  by rewrite length_fmap, tagged_rows_length.
Qed.

Lemma bind_contribution_length fs cols (years : list Z) :
  length (years ≫= contribution fs cols) = sum_list (nrows fs <$> years).
Proof.
  induction years as [|y ys IH]; [done|].
  rewrite bind_cons, length_app, contribution_nrows, IH. done.
Qed.

(** X5.  No row is lost or added: the written table has as many rows as
    the parsed files of the range have data rows together. *)
Theorem row_count_is_sum_of_files fs store w' :
  run fs store = (inr tt, w') →
  ∃ t, all_cars_table w' = Some t ∧
       length (trows t) = sum_list (nrows fs <$> scan_years).
Proof.
  intros (_ & _ & ->)%run_success_inv.
  exists (table_of (collected fs scan_years)).
  split; [apply all_cars_table_written|].
  rewrite table_of_collected_rows. apply bind_contribution_length.
Qed.

Lemma row_count_is_sum_of_files_witness :
  sum_list (nrows folder_first_last <$> scan_years) = 2%nat ∧
  ∃ t, all_cars_table (run folder_first_last ∅).2 = Some t ∧
       length (trows t) = sum_list (nrows folder_first_last <$> scan_years).
Proof.
  split; [vm_compute; reflexivity|].
  apply (row_count_is_sum_of_files folder_first_last ∅ (run folder_first_last ∅).2).
  vm_compute. reflexivity.
Defined.




Lemma tagged_columns_eq y df :
  columns (tagged y df) =
  if decide ("year" ∈ columns df) then columns df else columns df ++ ["year"].
Proof.
  unfold tagged, setitem.
  destruct (index_of "year" (columns df)) as [i|] eqn:Hi; simpl.
  - rewrite decide_True; [done|].
    apply list_elem_of_lookup. exists i. by apply index_of_Some.
  - apply index_of_None in Hi. by rewrite decide_False.
Qed.

Lemma tagged_NoDup y df : NoDup (columns df) → NoDup (columns (tagged y df)).
Proof.
  intros Hnd. rewrite tagged_columns_eq. case_decide as Hin; [done|].
  apply NoDup_app. split_and!; [done| |apply NoDup_singleton].
  intros c Hc ->%list_elem_of_singleton. done.
Qed.

Lemma tagged_rectangular y df : rectangular df → rectangular (tagged y df).
Proof.
  unfold rectangular, tagged, setitem. intros Hrect.
  destruct (index_of "year" (columns df)) as [i|]; simpl; apply Forall_fmap;
    (eapply Forall_impl; [exact Hrect|]); intros r Hr; simpl.
  - by rewrite length_insert.
  - rewrite !length_app, Hr. done.
Qed.

Lemma add_columns_NoDup acc cols :
  NoDup acc → NoDup cols → NoDup (add_columns acc cols).
Proof.
  intros Hacc Hcols. unfold add_columns. apply NoDup_app. split_and!; [done| |].
  - intros c Hc [_ Hni]%list_elem_of_difference. done.
  - by apply NoDup_list_difference.
Qed.

Lemma union_columns_NoDup (dfs : list DataFrame) :
  Forall (λ df, NoDup (columns df)) dfs → NoDup (union_columns dfs).
Proof.
  unfold union_columns. assert (NoDup (@nil string)) as Hacc by constructor.
  revert Hacc. generalize (@nil string) as acc.
  induction dfs as [|df dfs IH]; intros acc Hacc Hall; simpl; [done|].
  inversion_clear Hall as [|?? Hdf Hdfs].
  apply IH; [|done]. by apply add_columns_NoDup.
Qed.

(** X7.  When no parsed file repeats a label, neither does the written
    table. *)
Theorem written_columns_are_distinct fs store w' :
  columns_distinct fs →
  run fs store = (inr tt, w') →
  ∃ t, all_cars_table w' = Some t ∧ NoDup (tcolumns t).
Proof.
  intros Hnd (_ & _ & ->)%run_success_inv.
  exists (table_of (collected fs scan_years)).
  split; [apply all_cars_table_written|].
  unfold table_of, concat_frames. simpl. apply union_columns_NoDup.
  apply Forall_forall. intros df' (y & df & Hy & Hf & ->)%collected_elem.
  apply tagged_NoDup.
  unfold columns_distinct in Hnd. rewrite Forall_forall in Hnd.
  specialize (Hnd y Hy). by rewrite Hf in Hnd.
Qed.

Lemma written_columns_are_distinct_witness :
  columns_distinct folder_mixed_columns ∧
  ∃ t, all_cars_table (run folder_mixed_columns ∅).2 = Some t ∧ NoDup (tcolumns t).
Proof.
  assert (columns_distinct folder_mixed_columns) as Hnd.
  { eapply bool_decide_unpack. vm_compute. exact I. }
  split; [exact Hnd|].
  apply (written_columns_are_distinct folder_mixed_columns ∅
           (run folder_mixed_columns ∅).2 Hnd).
  vm_compute. reflexivity.
Defined.







(** X9.  A column that only other files have is filled with the missing
    value: in the written table every row of a file lacking the label
    [c] has [CNaN] under [c]. *)
Theorem absent_column_is_filled_with_nan fs store w' y df c :
  run fs store = (inr tt, w') →
  fs !! file_path y = Some (Csv df) →
  c ∉ columns df → c ≠ "year" →
  ∃ t, all_cars_table w' = Some t ∧
       ∀ r, c ∈ tcolumns t → r ∈ contribution fs (tcolumns t) y →
            row_get (tcolumns t) r c = Some CNaN.
Proof.
  intros (_ & _ & ->)%run_success_inv Hf Hni Hne.
  exists (table_of (collected fs scan_years)).
  split; [apply all_cars_table_written|].
  intros r Hc. unfold contribution, realigned_rows. rewrite Hf.
  intros (r0 & -> & _)%list_elem_of_fmap.
  rewrite row_get_reindex by done. unfold row_get at 1.
  assert (index_of c (columns (tagged y df)) = None) as ->; [|done].
  apply index_of_None. rewrite tagged_columns. by intros [?|?].
Qed.

Lemma absent_column_is_filled_with_nan_witness :
  ∃ t, all_cars_table (run folder_mixed_columns ∅).2 = Some t ∧
       ∀ r, "doors" ∈ tcolumns t → r ∈ contribution folder_mixed_columns (tcolumns t) 2020 →
            row_get (tcolumns t) r "doors" = Some CNaN.
Proof.
  apply (absent_column_is_filled_with_nan folder_mixed_columns ∅
           (run folder_mixed_columns ∅).2 2020
           {| columns := ["make"; "model"];
              rows := [[CText "Toyota"; CText "Corolla"]] |} "doors").
  - vm_compute. reflexivity.
  - vm_compute. reflexivity.
  - eapply bool_decide_unpack. vm_compute. exact I.
  - discriminate.
Defined.

Lemma read_app tr1 tr2 : read (tr1 ++ tr2) = read tr1 ++ read tr2.
Proof. unfold read. apply omap_app. Qed.

Lemma read_scan_trace_all_parse fs years :
  all_parse fs years →
  read (scan_trace fs years) = file_path <$> filter (λ y, ¬ missing fs y) years.
Proof.
  unfold all_parse.
  induction years as [|y ys IH]; intros Hp; simpl; [done|].
  inversion_clear Hp as [|?? Hy Hys]. rewrite filter_cons.
  destruct (decide (¬ missing fs y)) as [Hm|Hm]; unfold missing in Hm.
  - destruct (fs !! file_path y) as [[df|]|]; [|done..]. simpl. f_equal. by apply IH.
  - apply dec_stable in Hm. rewrite Hm. simpl. by apply IH.
Qed.

(** X10.  The guard works: a file that does not exist is never read,
    and when every present file parses, exactly the existing files of
    the range are read, each once, in ascending order of the years. *)
Theorem exactly_the_existing_files_are_read fs store :
  (∀ y, 1992 ≤ y ≤ 2026 → missing fs y →
        file_path y ∉ read (trace (run fs store).2)) ∧
  (all_parse fs scan_years →
   read (trace (run fs store).2) =
   file_path <$> filter (λ y, ¬ missing fs y) scan_years).
Proof.
  destruct (run_trace fs store) as (tl & -> & Htl).
  assert (read tl = []) as Hrd by (by destruct Htl as [-> | ->]).
  rewrite read_app, Hrd, app_nil_r. split.
  - intros y Hy Hm (y' & Hy'%scan_years_elem & Heq & Hsome)%read_scan_trace.
    apply file_path_inj in Heq; [|done..]. subst y'.
    unfold missing in Hm. rewrite Hm in Hsome. by destruct Hsome.
  - apply read_scan_trace_all_parse.
Qed.

Lemma exactly_the_existing_files_are_read_witness :
  all_parse folder_first_last scan_years ∧
  read (trace (run folder_first_last ∅).2) = [file_path 1992; file_path 2026].
Proof.
  assert (all_parse folder_first_last scan_years) as Hp.
  { eapply bool_decide_unpack. vm_compute. exact I. }
  split; [exact Hp|].
  destruct (exactly_the_existing_files_are_read folder_first_last ∅) as (_ & Hread).
  rewrite (Hread Hp). vm_compute. reflexivity.
Defined.

Lemma scan_outcome_ext fs fs' acc years :
  Forall (λ y, fs !! file_path y = fs' !! file_path y) years →
  scan_outcome fs acc years = scan_outcome fs' acc years.
Proof.
  revert acc. induction years as [|y ys IH]; intros acc Hall; simpl; [done|].
  apply Forall_cons in Hall as [<- Hys].
  destruct (fs !! file_path y) as [[df|]|]; [|done|]; by apply IH.
Qed.

Lemma scan_trace_ext fs fs' years :
  Forall (λ y, fs !! file_path y = fs' !! file_path y) years →
  scan_trace fs years = scan_trace fs' years.
Proof.
  induction years as [|y ys IH]; intros Hall; simpl; [done|].
  apply Forall_cons in Hall as [<- Hys].
  destruct (fs !! file_path y) as [[df|]|]; [|done|]; by rewrite IH.
Qed.

(** X11.  Only the candidates of the range matter: two folders that
    agree on [<year>.csv] for the years 1992 to 2026 give runs with the
    same outcome, the same database files and the same trace, whatever
    else the folders hold. *)
Theorem files_outside_the_scan_are_ignored fs fs' store :
  (∀ y, 1992 ≤ y ≤ 2026 → fs !! file_path y = fs' !! file_path y) →
  (run fs store).1 = (run fs' store).1 ∧
  dbs (run fs store).2 = dbs (run fs' store).2 ∧
  trace (run fs store).2 = trace (run fs' store).2.
Proof.
  intros Hagree.
  assert (Forall (λ y, fs !! file_path y = fs' !! file_path y) scan_years) as Hall.
  { apply Forall_forall. intros y Hy%scan_years_elem. by apply Hagree. }
  rewrite !run_unfold.
  rewrite (scan_outcome_ext fs fs') by done.
  rewrite (scan_trace_ext fs fs') by done.
  by destruct (scan_outcome fs' [] scan_years) as [e|[|df dfs]].
Qed.

Lemma files_outside_the_scan_are_ignored_witness :
  folder_with_strays ≠ folder_2020 ∧
  (run folder_with_strays ∅).1 = (run folder_2020 ∅).1 ∧
  dbs (run folder_with_strays ∅).2 = dbs (run folder_2020 ∅).2 ∧
  trace (run folder_with_strays ∅).2 = trace (run folder_2020 ∅).2.
Proof.
  split.
  - intros Heq. apply (f_equal (λ m, m !! file_path 1980)) in Heq.
    vm_compute in Heq. discriminate.
  - apply (files_outside_the_scan_are_ignored folder_with_strays folder_2020 ∅).
    intros y Hy%scan_years_elem. revert y Hy. apply Forall_forall.
    eapply bool_decide_unpack. vm_compute. exact I.
Defined.

(** X12.  Forcing the year keeps the frame in shape: the rows stay as
    many and in place, the frame stays rectangular, the labels it had
    stay where they were, distinct labels stay distinct, and every row
    then carries the forced year. *)
Theorem forcing_year_preserves_frame y df :
  rectangular df →
  rectangular (tagged y df) ∧
  length (rows (tagged y df)) = length (rows df) ∧
  columns df `prefix_of` columns (tagged y df) ∧
  (NoDup (columns df) → NoDup (columns (tagged y df))) ∧
  (∀ r, r ∈ rows (tagged y df) →
        row_get (columns (tagged y df)) r "year" = Some (CInt y)) ∧
  (∀ i r c, rows df !! i = Some r → c ∈ columns df → c ≠ "year" →
     ∃ r', rows (tagged y df) !! i = Some r' ∧
           row_get (columns (tagged y df)) r' c = row_get (columns df) r c).
Proof.
  intros Hrect. split_and!.
  - by apply tagged_rectangular.
  - apply tagged_rows_length.
  - rewrite tagged_columns_eq. case_decide; [done|]. by apply prefix_app_r.
  - apply tagged_NoDup.
  - intros r. by apply tagged_year.
  - intros i r c Hr Hc Hne. by apply tagged_row_other.
Qed.

Lemma forcing_year_preserves_frame_witness :
  tagged 2020 {| columns := ["year"; "make"]; rows := [[CInt 1999; CText "Toyota"]] |}
    = {| columns := ["year"; "make"]; rows := [[CInt 2020; CText "Toyota"]] |} ∧
  rectangular
    (tagged 2020 {| columns := ["year"; "make"]; rows := [[CInt 1999; CText "Toyota"]] |}).
Proof.
  split; [vm_compute; reflexivity|].
  apply (forcing_year_preserves_frame 2020
           {| columns := ["year"; "make"]; rows := [[CInt 1999; CText "Toyota"]] |}).
  eapply bool_decide_unpack. vm_compute. exact I.
Defined.

(** X13.  No two years of the range share a candidate file or a skip
    notice. *)
Theorem candidates_are_distinct y y' :
  1992 ≤ y ≤ 2026 → 1992 ≤ y' ≤ 2026 → y ≠ y' →
  file_path y ≠ file_path y' ∧ skip_notice y ≠ skip_notice y'.
Proof.
  intros Hy Hy' Hne. split.
  - intros Heq. by apply Hne, file_path_inj.
  - intros Heq. by apply Hne, skip_notice_inj.
Qed.

Lemma candidates_are_distinct_witness :
  file_path 1992 ≠ file_path 2026 ∧ skip_notice 1992 ≠ skip_notice 2026.
Proof. apply (candidates_are_distinct 1992 2026); lia. Defined.
